(** * Focal point and crop windows of the image dimensions picker

    A shallow embedding of [ImageDimensionsPicker]
    (src/components/ImageDimensionsPicker.tsx, rendered by src/pages/Index.tsx)
    and the properties of its crop geometry.

    Numbers.  The component computes on JavaScript [number]s, IEEE binary64
    floating-point numbers.  The code is embedded twice.

    - [Binary64] is the code on doubles: the kernel's primitive floats, with
      the rounding of every [+], [-] and [/], [Math.max] and [Math.min] with
      their treatment of [NaN] and of the two zeros, and [===] as the IEEE
      equality.  It evaluates the code at given doubles; the inputs at which
      a property fails on doubles are computed there.

    - The definitions outside [Binary64] read the same code with exact
      rationals [Q]: [+], [-] and [/ 2] are the field operations, [Math.max]
      and [Math.min] are [Qmax] and [Qmin], [===] is [Qeq_bool].  The
      statements quantified over all inputs are proved of this reading;
      their values are compared with [==] ([Qeq]), the equality of the
      values and not of their fractions. *)

From Stdlib Require Import QArith Qminmax Qround Lqa Bool List ZArith Lia.
From Stdlib Require Import Floats.
Import ListNotations.

Set Warnings "-inexact-float".

Local Open Scope Q_scope.

(** ** Data *)

(** [interface Position { x: number; y: number }] *)
Record Position : Set := mkPosition { x : Q; y : Q }.

(** [interface Dimensions { width: number; height: number }] *)
Record Dimensions : Set := mkDimensions { width : Q; height : Q }.

(** Of a [DragEndEvent] the handler reads the field [delta] only. *)
Record DragEndEvent : Set := mkDragEndEvent { delta : Position }.

(** The element a mounted [containerRef] points to; [containerRef.current]
    is [None] while the container is not mounted ([null]). *)
Inductive HTMLDivElement : Set := ContainerDiv.

(** [Math.round]: the nearest integer, a tie going up
    ([Math.round(2.5) = 3], [Math.round(-2.5) = -2]). *)
Definition Math_round (v : Q) : Z := Qfloor (v + (1 # 2)).

(** The numbers of the info panel: the focal point and the two offsets go
    through [Math.round], the two widths are shown as they are. *)
Record InfoPanel : Set :=
  mkInfoPanel {
    shownFocalX : Z; shownFocalY : Z;
    shownMobileLeft : Z; shownMobileWidth : Q;
    shownTabletLeft : Z; shownTabletWidth : Q }.

(** ** The component

    The functions of the component are closures over its props; the section
    variables are those props. *)

Section ImageDimensionsPicker.

Variable containerDimensions : Dimensions.
Variable mobileWidth : Q.
Variable tabletWidth : Q.

(** [useState<Position>({ x: width / 2, y: height / 2 })] *)
Definition initialFocalPoint : Position :=
  {| x := width containerDimensions / 2;
     y := height containerDimensions / 2 |}.

Definition getMobileContainerPosition (focalX : Q) : Q :=
  let halfMobileWidth := mobileWidth / 2 in
  let mobileLeft := focalX - halfMobileWidth in
  let mobileLeft :=
    Qmax 0 (Qmin mobileLeft (width containerDimensions - mobileWidth)) in
  mobileLeft.

Definition getTabletContainerPosition (focalX : Q) : Q :=
  let halfTabletWidth := tabletWidth / 2 in
  let tabletLeft := focalX - halfTabletWidth in
  let tabletLeft :=
    Qmax 0 (Qmin tabletLeft (width containerDimensions - tabletWidth)) in
  tabletLeft.

(** [handleDragEnd] returns the argument of its call of [setFocalPoint],
    and [None] when it returns without calling it. *)
Definition handleDragEnd (containerRef_current : option HTMLDivElement)
    (focalPoint : Position) (event : DragEndEvent) : option Position :=
  let delta := delta event in
  match containerRef_current with
  | None => None
  | Some _ =>
    let newX :=
      Qmax 0 (Qmin (x focalPoint + x delta) (width containerDimensions)) in
    let newY :=
      Qmax 0 (Qmin (y focalPoint + y delta) (height containerDimensions)) in
    let newTabletLeft := getTabletContainerPosition newX in
    let isTabletAtLeftBoundary := Qeq_bool newTabletLeft 0 in
    let isTabletAtRightBoundary :=
      Qeq_bool newTabletLeft (width containerDimensions - tabletWidth) in
    let finalX :=
      if negb isTabletAtLeftBoundary && negb isTabletAtRightBoundary
      then
        let newMobileLeft := getMobileContainerPosition newX in
        newMobileLeft + mobileWidth / 2
      else newX in
    Some {| x := finalX; y := newY |}
  end.

(** The state [focalPoint] after the handler has run: the committed point,
    or the old one when nothing was committed. *)
Definition afterDragEnd (containerRef_current : option HTMLDivElement)
    (focalPoint : Position) (event : DragEndEvent) : Position :=
  match handleDragEnd containerRef_current focalPoint event with
  | Some p => p
  | None => focalPoint
  end.

(** The state after a sequence of drags, oldest first. *)
Fixpoint afterDrags (containerRef_current : option HTMLDivElement)
    (focalPoint : Position) (events : list DragEndEvent) : Position :=
  match events with
  | nil => focalPoint
  | cons e es =>
    afterDrags containerRef_current
      (afterDragEnd containerRef_current focalPoint e) es
  end.

(** What is rendered: [const mobileLeft = getMobileContainerPosition(focalPoint.x)]
    and [const tabletLeft = getTabletContainerPosition(focalPoint.x)]. *)
Definition mobileLeft (focalPoint : Position) : Q :=
  getMobileContainerPosition (x focalPoint).

Definition tabletLeft (focalPoint : Position) : Q :=
  getTabletContainerPosition (x focalPoint).

(** The info panel rendered for the state [focalPoint]. *)
Definition infoPanel (focalPoint : Position) : InfoPanel :=
  {| shownFocalX := Math_round (x focalPoint);
     shownFocalY := Math_round (y focalPoint);
     shownMobileLeft := Math_round (mobileLeft focalPoint);
     shownMobileWidth := mobileWidth;
     shownTabletLeft := Math_round (tabletLeft focalPoint);
     shownTabletWidth := tabletWidth |}.

(** The state after a session: a sequence of drags, oldest first, each with
    the [containerRef.current] its handler finds. *)
Fixpoint afterSession (focalPoint : Position)
    (session : list (option HTMLDivElement * DragEndEvent)) : Position :=
  match session with
  | nil => focalPoint
  | cons (containerRef_current, e) rest =>
    afterSession (afterDragEnd containerRef_current focalPoint e) rest
  end.

End ImageDimensionsPicker.

(** The props [Index] passes, which are also the defaults of the component. *)
Definition Index_containerDimensions : Dimensions :=
  {| width := 800; height := 400 |}.
Definition Index_mobileWidth : Q := 200.
Definition Index_tabletWidth : Q := 400.

(** ** The component on doubles *)

Module Binary64.

Local Open Scope float_scope.

Record Position : Set := mkPosition { x : float; y : float }.

Record Dimensions : Set := mkDimensions { width : float; height : float }.

Record DragEndEvent : Set := mkDragEndEvent { delta : Position }.

(** [Math.max] of two numbers: [NaN] if one of them is [NaN]; [+0] counts as
    larger than [-0]. *)
Definition Math_max (a b : float) : float :=
  if is_nan a || is_nan b then nan
  else if a <? b then b
  else if b <? a then a
  else if get_sign a then b else a.

(** [Math.min] of two numbers: [NaN] if one of them is [NaN]; [-0] counts as
    smaller than [+0]. *)
Definition Math_min (a b : float) : float :=
  if is_nan a || is_nan b then nan
  else if a <? b then a
  else if b <? a then b
  else if get_sign a then a else b.

Section ImageDimensionsPicker.

Variable containerDimensions : Dimensions.
Variable mobileWidth : float.
Variable tabletWidth : float.

Definition initialFocalPoint : Position :=
  {| x := width containerDimensions / 2;
     y := height containerDimensions / 2 |}.

Definition getMobileContainerPosition (focalX : float) : float :=
  let halfMobileWidth := mobileWidth / 2 in
  let mobileLeft := focalX - halfMobileWidth in
  let mobileLeft :=
    Math_max 0 (Math_min mobileLeft (width containerDimensions - mobileWidth)) in
  mobileLeft.

Definition getTabletContainerPosition (focalX : float) : float :=
  let halfTabletWidth := tabletWidth / 2 in
  let tabletLeft := focalX - halfTabletWidth in
  let tabletLeft :=
    Math_max 0 (Math_min tabletLeft (width containerDimensions - tabletWidth)) in
  tabletLeft.

Definition handleDragEnd (containerRef_current : option HTMLDivElement)
    (focalPoint : Position) (event : DragEndEvent) : option Position :=
  let delta := delta event in
  match containerRef_current with
  | None => None
  | Some _ =>
    let newX :=
      Math_max 0 (Math_min (x focalPoint + x delta)
                    (width containerDimensions)) in
    let newY :=
      Math_max 0 (Math_min (y focalPoint + y delta)
                    (height containerDimensions)) in
    let newTabletLeft := getTabletContainerPosition newX in
    let isTabletAtLeftBoundary := newTabletLeft =? 0 in
    let isTabletAtRightBoundary :=
      newTabletLeft =? width containerDimensions - tabletWidth in
    let finalX :=
      if negb isTabletAtLeftBoundary && negb isTabletAtRightBoundary
      then
        let newMobileLeft := getMobileContainerPosition newX in
        newMobileLeft + mobileWidth / 2
      else newX in
    Some {| x := finalX; y := newY |}
  end.

Definition mobileLeft (focalPoint : Position) : float :=
  getMobileContainerPosition (x focalPoint).

Definition tabletLeft (focalPoint : Position) : float :=
  getTabletContainerPosition (x focalPoint).

(** [0 < mobileWidth <= tabletWidth <= containerWidth], decided. *)
Definition validConfiguration : bool :=
  (0 <? mobileWidth) && (mobileWidth <=? tabletWidth)
  && (tabletWidth <=? width containerDimensions).

(** The focal point lies in the container, decided. *)
Definition inBounds (p : Position) : bool :=
  (0 <=? x p) && (x p <=? width containerDimensions)
  && (0 <=? y p) && (y p <=? height containerDimensions).

End ImageDimensionsPicker.

(** [clamp v lo hi] on doubles. *)
Definition clamp (v lo hi : float) : float :=
  if v <? lo then lo
  else if hi <? v then hi
  else v.

Definition zeroDrag : DragEndEvent := {| delta := {| x := 0; y := 0 |} |}.

(** The rational a finite double stands for. *)
Definition exactValue (f : float) : option Q :=
  match Prim2SF f with
  | S754_zero _ => Some 0%Q
  | S754_finite s m e =>
    Some (inject_Z (if s then Z.neg m else Z.pos m) * 2 ^ e)%Q
  | S754_infinity _ => None
  | S754_nan => None
  end.

End Binary64.

(** ** The vocabulary of the specification *)

(** [clamp v lo hi]: [v] brought into the interval [[lo, hi]]. *)
Definition clamp (v lo hi : Q) : Q :=
  if Qlt_le_dec v lo then lo
  else if Qlt_le_dec hi v then hi
  else v.

(** The specification's [windowLeft]: [focalX - windowWidth/2] clamped to
    [[0, containerWidth - windowWidth]]. *)
Definition windowLeft_spec (focalX windowWidth containerWidth : Q) : Q :=
  clamp (focalX - windowWidth / 2) 0 (containerWidth - windowWidth).

(** The focal point lies in the container. *)
Definition inBounds (containerDimensions : Dimensions) (p : Position) : Prop :=
  0 <= x p <= width containerDimensions /\
  0 <= y p <= height containerDimensions.

(** The specification's simpler reading of a drag: each axis clamped on its
    own. *)
Definition clampDrag (containerDimensions : Dimensions)
    (focalPoint delta : Position) : Position :=
  {| x := clamp (x focalPoint + x delta) 0 (width containerDimensions);
     y := clamp (y focalPoint + y delta) 0 (height containerDimensions) |}.

(** Two positions with the same coordinates. *)
Definition samePosition (p q : Position) : Prop :=
  x p == x q /\ y p == y q.

(** The drag that does not move: [delta = { x: 0, y: 0 }]. *)
Definition zeroDrag : DragEndEvent := {| delta := {| x := 0; y := 0 |} |}.

(** The expression of [finalX] in [handleDragEnd], as a function of
    [newX]. *)
Definition finalX_of (cd : Dimensions) (mobileWidth tabletWidth newX : Q)
    : Q :=
  let newTabletLeft := getTabletContainerPosition cd tabletWidth newX in
  if negb (Qeq_bool newTabletLeft 0)
     && negb (Qeq_bool newTabletLeft (width cd - tabletWidth))
  then getMobileContainerPosition cd mobileWidth newX + mobileWidth / 2
  else newX.

(** The configuration the specification asks of the caller. *)
Definition validConfiguration (cd : Dimensions) (mobileWidth tabletWidth : Q)
    : Prop :=
  0 < mobileWidth /\ mobileWidth <= tabletWidth /\ tabletWidth <= width cd.

(** The tablet window of the focal point is at a boundary. *)
Definition tabletPinned (cd : Dimensions) (tw : Q) (fp : Position) : Prop :=
  tabletLeft cd tw fp == 0 \/ tabletLeft cd tw fp == width cd - tw.

(** The expression of [newX] and [newY] in [handleDragEnd]:
    [Math.max(0, Math.min(current + moved, containerSize))]. *)
Definition provisional (containerSize current moved : Q) : Q :=
  Qmax 0 (Qmin (current + moved) containerSize).

(** ** Auxiliary facts on [Qmax], [Qmin] and [clamp] *)

(** Replaces the term [t] by a variable everywhere, keeping the fact [spec]
    about it. *)
Ltac name_term t spec :=
  pose proof spec; generalize dependent t; intros.

(** Names every [Qmax] and [Qmin] in sight and keeps what [Q.max_spec] and
    [Q.min_spec] say of it, for [lra]. *)
Ltac name_minmax :=
  repeat match goal with
  | |- context [Qmax ?a ?b] => name_term (Qmax a b) (Q.max_spec a b)
  | _ : context [Qmax ?a ?b] |- _ => name_term (Qmax a b) (Q.max_spec a b)
  | |- context [Qmin ?a ?b] => name_term (Qmin a b) (Q.min_spec a b)
  | _ : context [Qmin ?a ?b] |- _ => name_term (Qmin a b) (Q.min_spec a b)
  end.

(** [lra] does not read [_ / 2]; it reads [_ * (1 # 2)]. *)
Ltac halves := unfold Qdiv in *; change (/ 2) with (1 # 2) in *.

Ltac minmax_lra := halves; name_minmax; lra.

Lemma clamp_spec (v lo hi : Q) :
  (v < lo /\ clamp v lo hi == lo) \/
  (lo <= v /\ hi < v /\ clamp v lo hi == hi) \/
  (lo <= v <= hi /\ clamp v lo hi == v).
Proof.
  unfold clamp.
  destruct (Qlt_le_dec v lo) as [Hlo | Hlo].
  - left. split; [assumption | reflexivity].
  - destruct (Qlt_le_dec hi v) as [Hhi | Hhi].
    + right; left. repeat split; try assumption; reflexivity.
    + right; right. repeat split; try assumption; reflexivity.
Qed.

(** Names every [clamp] of the goal, as [name_minmax] does. *)
Ltac name_clamp :=
  repeat match goal with
  | |- context [clamp ?v ?lo ?hi] =>
      name_term (clamp v lo hi) (clamp_spec v lo hi)
  | _ : context [clamp ?v ?lo ?hi] |- _ =>
      name_term (clamp v lo hi) (clamp_spec v lo hi)
  end.

(** [Math.max(lo, Math.min(v, hi))] is the clamp when the interval is not
    empty. *)
Lemma max_min_clamp (v lo hi : Q) :
  lo <= hi -> Qmax lo (Qmin v hi) == clamp v lo hi.
Proof.
  intros Hle. name_clamp. minmax_lra.
Qed.

Lemma clamp_bounds (v lo hi : Q) :
  lo <= hi -> lo <= clamp v lo hi <= hi.
Proof.
  intros Hle. name_clamp. lra.
Qed.

#[export] Instance getMobileContainerPosition_compat :
  Proper (eq ==> Qeq ==> Qeq ==> Qeq) getMobileContainerPosition.
Proof.
  intros cd cd' <- mw mw' Hmw fx fx' Hfx.
  unfold getMobileContainerPosition; cbv zeta.
  rewrite Hmw, Hfx. reflexivity.
Qed.

#[export] Instance getTabletContainerPosition_compat :
  Proper (eq ==> Qeq ==> Qeq ==> Qeq) getTabletContainerPosition.
Proof.
  intros cd cd' <- tw tw' Htw fx fx' Hfx.
  unfold getTabletContainerPosition; cbv zeta.
  rewrite Htw, Hfx. reflexivity.
Qed.

(** ** The crop windows *)

(** C1. When the window is not wider than the container, both
    [getMobileContainerPosition] and [getTabletContainerPosition] (each taken
    at window width [windowWidth]) return [focalX - windowWidth/2] clamped to
    [[0, containerWidth - windowWidth]], and so a value between [0] and
    [containerWidth - windowWidth]. *)
Theorem windowLeft_clamped (cd : Dimensions) (windowWidth focalX : Q) :
  windowWidth <= width cd ->
  (getMobileContainerPosition cd windowWidth focalX
     == windowLeft_spec focalX windowWidth (width cd) /\
   0 <= getMobileContainerPosition cd windowWidth focalX
     <= width cd - windowWidth) /\
  (getTabletContainerPosition cd windowWidth focalX
     == windowLeft_spec focalX windowWidth (width cd) /\
   0 <= getTabletContainerPosition cd windowWidth focalX
     <= width cd - windowWidth).
Proof.
  intros Hw.
  unfold getMobileContainerPosition, getTabletContainerPosition,
    windowLeft_spec; cbv zeta.
  assert (Hle : 0 <= width cd - windowWidth) by lra.
  rewrite (max_min_clamp _ 0 _ Hle).
  pose proof (clamp_bounds (focalX - windowWidth / 2) 0 _ Hle) as Hb.
  repeat split; try reflexivity; apply Hb.
Qed.

Lemma windowLeft_clamped_witness :
  (getMobileContainerPosition Index_containerDimensions 200 50
     == windowLeft_spec 50 200 (width Index_containerDimensions) /\
   0 <= getMobileContainerPosition Index_containerDimensions 200 50
     <= width Index_containerDimensions - 200) /\
  (getTabletContainerPosition Index_containerDimensions 200 50
     == windowLeft_spec 50 200 (width Index_containerDimensions) /\
   0 <= getTabletContainerPosition Index_containerDimensions 200 50
     <= width Index_containerDimensions - 200).
Proof.
  apply (windowLeft_clamped Index_containerDimensions 200 50).
  vm_compute; discriminate.
Defined.

(** C9. When the window is wider than the container, both functions return
    [0] itself, whatever the focal X: the upper bound
    [containerWidth - windowWidth] is negative, [Math.min] is at most that
    bound, and [Math.max(0, _)] of a negative number is [0]. *)
Theorem windowLeft_degenerate (cd : Dimensions) (windowWidth focalX : Q) :
  width cd < windowWidth ->
  getMobileContainerPosition cd windowWidth focalX = 0 /\
  getTabletContainerPosition cd windowWidth focalX = 0.
Proof.
  intros Hw.
  assert (Hneg : Qmin (focalX - windowWidth / 2) (width cd - windowWidth) < 0)
    by minmax_lra.
  assert (Hmax : Qmax 0 (Qmin (focalX - windowWidth / 2)
                           (width cd - windowWidth)) = 0).
  { unfold Qmax, GenericMinMax.gmax.
    destruct (0 ?= Qmin (focalX - windowWidth / 2) (width cd - windowWidth))
      eqn:Hc; try reflexivity.
    rewrite <- Qlt_alt in Hc. lra. }
  unfold getMobileContainerPosition, getTabletContainerPosition; cbv zeta.
  split; exact Hmax.
Qed.

Lemma windowLeft_degenerate_witness :
  getMobileContainerPosition Index_containerDimensions 1000 700 = 0 /\
  getTabletContainerPosition Index_containerDimensions 1000 700 = 0.
Proof.
  apply (windowLeft_degenerate Index_containerDimensions 1000 700).
  vm_compute; reflexivity.
Defined.

(** ** The drag handler *)

Lemma provisional_clamp (containerSize current moved : Q) :
  0 <= containerSize ->
  provisional containerSize current moved
    == clamp (current + moved) 0 containerSize.
Proof.
  intros Hc. unfold provisional. apply max_min_clamp, Hc.
Qed.

Lemma provisional_bounds (containerSize current moved : Q) :
  0 <= containerSize ->
  0 <= provisional containerSize current moved <= containerSize.
Proof.
  intros Hc. unfold provisional. minmax_lra.
Qed.

(** With the container mounted the handler commits, and this is the point. *)
Lemma handleDragEnd_mounted (cd : Dimensions) (mw tw : Q)
    (el : HTMLDivElement) (fp : Position) (e : DragEndEvent) :
  handleDragEnd cd mw tw (Some el) fp e =
  Some {| x :=
            let newX := provisional (width cd) (x fp) (x (delta e)) in
            let newTabletLeft := getTabletContainerPosition cd tw newX in
            if negb (Qeq_bool newTabletLeft 0)
               && negb (Qeq_bool newTabletLeft (width cd - tw))
            then getMobileContainerPosition cd mw newX + mw / 2
            else newX;
          y := provisional (height cd) (y fp) (y (delta e)) |}.
Proof. reflexivity. Qed.

Lemma handleDragEnd_unmounted (cd : Dimensions) (mw tw : Q)
    (fp : Position) (e : DragEndEvent) :
  handleDragEnd cd mw tw None fp e = None.
Proof. reflexivity. Qed.

(** The two boundary tests of the handler, as propositions. *)
Lemma tablet_interior_test (t bound : Q) :
  negb (Qeq_bool t 0) && negb (Qeq_bool t bound) = true
  <-> ~ t == 0 /\ ~ t == bound.
Proof.
  rewrite andb_true_iff, !negb_true_iff.
  split; intros [H0 Hb]; split.
  - apply Qeq_bool_neq, H0.
  - apply Qeq_bool_neq, Hb.
  - destruct (Qeq_bool t 0) eqn:E; [| reflexivity].
    exfalso; apply H0, Qeq_bool_eq, E.
  - destruct (Qeq_bool t bound) eqn:E; [| reflexivity].
    exfalso; apply Hb, Qeq_bool_eq, E.
Qed.

Lemma tablet_pinned_test (t bound : Q) :
  negb (Qeq_bool t 0) && negb (Qeq_bool t bound) = false
  <-> t == 0 \/ t == bound.
Proof.
  rewrite andb_false_iff, !negb_false_iff, !Qeq_bool_iff. reflexivity.
Qed.

(** C2. The tie-break of the handler at the tablet boundary.  For a focal
    point in the container and any drag, with
    [provisionalX = clamp (x + delta.x) 0 containerWidth] and
    [tabletLeft] the tablet offset at [provisionalX]: the handler commits a
    point; its X is the centre of the mobile window at [provisionalX] when
    [tabletLeft] is neither [0] nor [containerWidth - tabletWidth], and
    [provisionalX] itself when [tabletLeft] is one of the two. *)
Theorem handleDragEnd_tie_break (cd : Dimensions) (mw tw : Q)
    (el : HTMLDivElement) (fp : Position) (e : DragEndEvent) :
  inBounds cd fp ->
  let provisionalX := clamp (x fp + x (delta e)) 0 (width cd) in
  let tabletLeft' := getTabletContainerPosition cd tw provisionalX in
  exists p,
    handleDragEnd cd mw tw (Some el) fp e = Some p /\
    (~ tabletLeft' == 0 /\ ~ tabletLeft' == width cd - tw ->
     x p == getMobileContainerPosition cd mw provisionalX + mw / 2) /\
    (tabletLeft' == 0 \/ tabletLeft' == width cd - tw ->
     x p == provisionalX).
Proof.
  intros [[Hx0 Hx1] _] provisionalX tabletLeft'.
  assert (Hcw : 0 <= width cd) by lra.
  pose proof (provisional_clamp (width cd) (x fp) (x (delta e)) Hcw) as Hprov.
  fold provisionalX in Hprov.
  eexists. split; [apply handleDragEnd_mounted |].
  cbv zeta; cbn [x].
  subst tabletLeft'. rewrite <- Hprov.
  set (newX := provisional (width cd) (x fp) (x (delta e))).
  set (t := getTabletContainerPosition cd tw newX).
  destruct (negb (Qeq_bool t 0) && negb (Qeq_bool t (width cd - tw))) eqn:E.
  - apply tablet_interior_test in E. split.
    + intros _. reflexivity.
    + intros Hpin. exfalso. destruct E as [E0 E1], Hpin; auto.
  - apply tablet_pinned_test in E. split.
    + intros [N0 N1]. exfalso. destruct E; auto.
    + intros _. reflexivity.
Qed.

Lemma handleDragEnd_tie_break_witness :
  exists p,
    handleDragEnd Index_containerDimensions 200 400 (Some ContainerDiv)
      {| x := 400; y := 200 |} {| delta := {| x := -50; y := 10 |} |}
    = Some p /\ x p == 350.
Proof.
  destruct (handleDragEnd_tie_break Index_containerDimensions 200 400
              ContainerDiv {| x := 400; y := 200 |}
              {| delta := {| x := -50; y := 10 |} |})
    as [p [Hp [Hin _]]].
  - vm_compute. repeat split; discriminate.
  - exists p. split; [exact Hp |].
    rewrite Hin.
    + vm_compute; reflexivity.
    + vm_compute. split; discriminate.
Defined.

(** The X the handler commits when [newX] is interior for the mobile
    window too: re-centring on the mobile window gives [newX] back. *)
Lemma mobile_centre_unpinned (cd : Dimensions) (mw tw X : Q) :
  mw <= tw ->
  ~ getTabletContainerPosition cd tw X == 0 ->
  ~ getTabletContainerPosition cd tw X == width cd - tw ->
  getMobileContainerPosition cd mw X + mw / 2 == X.
Proof.
  unfold getTabletContainerPosition, getMobileContainerPosition; cbv zeta.
  intros Hmt N0 N1. minmax_lra.
Qed.

(** With nested windows the branch of the handler does not change [newX]. *)
Lemma committed_x_provisional (cd : Dimensions) (mw tw X : Q) :
  mw <= tw ->
  (if negb (Qeq_bool (getTabletContainerPosition cd tw X) 0)
      && negb (Qeq_bool (getTabletContainerPosition cd tw X) (width cd - tw))
   then getMobileContainerPosition cd mw X + mw / 2
   else X) == X.
Proof.
  intros Hmt.
  destruct (negb (Qeq_bool (getTabletContainerPosition cd tw X) 0)
            && negb (Qeq_bool (getTabletContainerPosition cd tw X)
                       (width cd - tw))) eqn:E.
  - apply tablet_interior_test in E. destruct E as [N0 N1].
    apply (mobile_centre_unpinned cd mw tw X Hmt N0 N1).
  - reflexivity.
Qed.

(** The X the handler commits stays in the container as soon as the mobile
    window fits in it. *)
Lemma committed_x_bounds (cd : Dimensions) (mw tw X : Q) :
  mw <= width cd ->
  0 <= X <= width cd ->
  0 <= (if negb (Qeq_bool (getTabletContainerPosition cd tw X) 0)
           && negb (Qeq_bool (getTabletContainerPosition cd tw X)
                      (width cd - tw))
        then getMobileContainerPosition cd mw X + mw / 2
        else X) <= width cd.
Proof.
  intros Hm HX.
  destruct (negb (Qeq_bool (getTabletContainerPosition cd tw X) 0)
            && negb (Qeq_bool (getTabletContainerPosition cd tw X)
                       (width cd - tw))).
  - unfold getMobileContainerPosition; cbv zeta. minmax_lra.
  - exact HX.
Qed.

(** One run of the handler, mounted or not, keeps the focal point in the
    container. *)
Lemma afterDragEnd_inBounds (cd : Dimensions) (mw tw : Q)
    (ref : option HTMLDivElement) (fp : Position) (e : DragEndEvent) :
  mw <= width cd ->
  inBounds cd fp ->
  inBounds cd (afterDragEnd cd mw tw ref fp e).
Proof.
  intros Hm Hfp. destruct ref as [el |]; [| exact Hfp].
  destruct Hfp as [[Hx0 Hx1] [Hy0 Hy1]].
  unfold afterDragEnd. rewrite handleDragEnd_mounted.
  split; cbv zeta; cbn [x y].
  - apply committed_x_bounds; [exact Hm |].
    apply provisional_bounds; lra.
  - apply provisional_bounds; lra.
Qed.

(** C3. The bounds of the focal point are kept by every drag: from a focal
    point in the container, whatever the delta, the handler commits a point
    in the container; so the state after the handler (mounted or not), and
    after any sequence of drags, is in the container.  The mobile window is
    taken to fit in the container, the part of the configuration contract
    the property depends on. *)
Theorem handleDragEnd_inBounds (cd : Dimensions) (mw tw : Q)
    (el : HTMLDivElement) (fp : Position) (e : DragEndEvent) :
  mw <= width cd ->
  inBounds cd fp ->
  (exists p, handleDragEnd cd mw tw (Some el) fp e = Some p /\ inBounds cd p)
  /\ (forall ref, inBounds cd (afterDragEnd cd mw tw ref fp e))
  /\ (forall ref events, inBounds cd (afterDrags cd mw tw ref fp events)).
Proof.
  intros Hm Hfp. split; [| split].
  - pose proof (afterDragEnd_inBounds cd mw tw (Some el) fp e Hm Hfp)
      as Hcommit.
    unfold afterDragEnd in Hcommit. rewrite handleDragEnd_mounted in Hcommit.
    eexists. split; [apply handleDragEnd_mounted | exact Hcommit].
  - intros ref. apply afterDragEnd_inBounds; assumption.
  - intros ref events. revert fp Hfp.
    induction events as [| e' events IH]; intros fp Hfp.
    + exact Hfp.
    + cbn [afterDrags]. apply IH, afterDragEnd_inBounds; assumption.
Qed.

Lemma handleDragEnd_inBounds_witness :
  inBounds Index_containerDimensions
    (afterDragEnd Index_containerDimensions 200 400 (Some ContainerDiv)
       {| x := 400; y := 200 |} {| delta := {| x := 1000; y := -1000 |} |}).
Proof.
  apply (handleDragEnd_inBounds Index_containerDimensions 200 400
           ContainerDiv {| x := 400; y := 200 |}
           {| delta := {| x := 1000; y := -1000 |} |}).
  - vm_compute; discriminate.
  - vm_compute. repeat split; discriminate.
Defined.

(** The bound on the mobile width cannot be dropped from
    [handleDragEnd_inBounds]: a mobile window wider than the container
    takes the committed X out of it. *)
Example handleDragEnd_wide_mobile_window :
  inBounds Index_containerDimensions {| x := 400; y := 200 |} /\
  x (afterDragEnd Index_containerDimensions 2000 400 (Some ContainerDiv)
       {| x := 400; y := 200 |} {| delta := {| x := 0; y := 0 |} |})
  == 1000 /\
  ~ inBounds Index_containerDimensions
      (afterDragEnd Index_containerDimensions 2000 400 (Some ContainerDiv)
         {| x := 400; y := 200 |} {| delta := {| x := 0; y := 0 |} |}).
Proof.
  split; [| split].
  - vm_compute. repeat split; discriminate.
  - vm_compute. reflexivity.
  - vm_compute. intros [[_ Hx] _]. apply Hx. reflexivity.
Qed.

(** A focal X whose tablet window is strictly inside the container is the
    centre of its mobile window. *)
Lemma centred_when_tablet_interior (cd : Dimensions) (mw tw X : Q) :
  mw <= tw ->
  0 < getTabletContainerPosition cd tw X < width cd - tw ->
  X == getMobileContainerPosition cd mw X + mw / 2.
Proof.
  intros Hmt [Hlo Hhi]. symmetry.
  apply (mobile_centre_unpinned cd mw tw X Hmt); lra.
Qed.

(** C4. Centring when unpinned.  With [0 < mobileWidth <= tabletWidth <=
    containerWidth], a focal point in the container and any drag, the
    handler commits a point [p]; if the tablet offset rendered from [p] is
    strictly between [0] and [containerWidth - tabletWidth], then
    [p.x == mobileLeft + mobileWidth/2] for the mobile offset rendered from
    the same [p]. *)
Theorem centering_when_unpinned (cd : Dimensions) (mw tw : Q)
    (el : HTMLDivElement) (fp : Position) (e : DragEndEvent) :
  validConfiguration cd mw tw ->
  inBounds cd fp ->
  exists p,
    handleDragEnd cd mw tw (Some el) fp e = Some p /\
    (0 < tabletLeft cd tw p < width cd - tw ->
     x p == mobileLeft cd mw p + mw / 2).
Proof.
  intros (Hm0 & Hmt & Htc) _.
  eexists. split; [apply handleDragEnd_mounted |].
  unfold tabletLeft, mobileLeft.
  apply centred_when_tablet_interior, Hmt.
Qed.

Lemma centering_when_unpinned_witness :
  exists p,
    handleDragEnd Index_containerDimensions 200 400 (Some ContainerDiv)
      {| x := 400; y := 200 |} {| delta := {| x := 75; y := 0 |} |}
    = Some p /\
    0 < tabletLeft Index_containerDimensions 400 p
      < width Index_containerDimensions - 400 /\
    x p == mobileLeft Index_containerDimensions 200 p + 200 / 2.
Proof.
  destruct (centering_when_unpinned Index_containerDimensions 200 400
              ContainerDiv {| x := 400; y := 200 |}
              {| delta := {| x := 75; y := 0 |} |})
    as [p [Hp Hc]].
  - vm_compute. repeat split; discriminate.
  - vm_compute. repeat split; discriminate.
  - exists p.
    assert (Hint : 0 < tabletLeft Index_containerDimensions 400 p
                     < width Index_containerDimensions - 400).
    { rewrite handleDragEnd_mounted in Hp. injection Hp as <-.
      vm_compute. split; reflexivity. }
    split; [exact Hp |]. split; [exact Hint |]. exact (Hc Hint).
Defined.

(** In exact arithmetic the point the handler commits is the axis-wise
    clamp of the dragged point, when the windows are nested and the
    container is not empty.  On doubles the re-centring rounds twice and
    the X can differ: [Binary64.handleDragEnd] at
    [handleDragEnd_is_not_clampDrag_on_doubles]. *)
Lemma afterDragEnd_mounted_clampDrag (cd : Dimensions) (mw tw : Q)
    (el : HTMLDivElement) (fp : Position) (e : DragEndEvent) :
  mw <= tw ->
  0 <= width cd -> 0 <= height cd ->
  samePosition (afterDragEnd cd mw tw (Some el) fp e)
    (clampDrag cd fp (delta e)).
Proof.
  intros Hmt Hw Hh.
  unfold afterDragEnd. rewrite handleDragEnd_mounted.
  split; cbv zeta; cbn [x y clampDrag].
  - rewrite committed_x_provisional by exact Hmt.
    apply provisional_clamp, Hw.
  - apply provisional_clamp, Hh.
Qed.

(** With nested windows, where the tablet window is at neither boundary the
    mobile offset is not clamped. *)
Lemma mobile_unclamped_when_tablet_interior (cd : Dimensions) (mw tw X : Q) :
  mw <= tw ->
  ~ getTabletContainerPosition cd tw X == 0 ->
  ~ getTabletContainerPosition cd tw X == width cd - tw ->
  getMobileContainerPosition cd mw X == X - mw / 2.
Proof.
  unfold getTabletContainerPosition, getMobileContainerPosition; cbv zeta.
  intros Hmt N0 N1. minmax_lra.
Qed.

(** C5, as amended.  With [0 < mobileWidth <= tabletWidth <=
    containerWidth], a focal point in the container and any drag, let
    [provisionalX = clamp (x + delta.x) 0 containerWidth].  The handler
    commits a point whose Y is [clamp (y + delta.y) 0 containerHeight].  Its
    X is [provisionalX] when the tablet window at [provisionalX] is at a
    boundary.  When it is at neither boundary the mobile offset at
    [provisionalX] is unclamped, [provisionalX - mobileWidth/2], and the X
    committed is that offset plus [mobileWidth/2]: the result of the
    subtraction and the addition, not [provisionalX] taken as it is. *)
Theorem handleDragEnd_clamps_or_recentres (cd : Dimensions) (mw tw : Q)
    (el : HTMLDivElement) (fp : Position) (e : DragEndEvent) :
  validConfiguration cd mw tw ->
  inBounds cd fp ->
  let provisionalX := clamp (x fp + x (delta e)) 0 (width cd) in
  let tabletLeft' := getTabletContainerPosition cd tw provisionalX in
  exists p,
    handleDragEnd cd mw tw (Some el) fp e = Some p /\
    y p == clamp (y fp + y (delta e)) 0 (height cd) /\
    (tabletLeft' == 0 \/ tabletLeft' == width cd - tw ->
     x p == provisionalX) /\
    (~ tabletLeft' == 0 /\ ~ tabletLeft' == width cd - tw ->
     getMobileContainerPosition cd mw provisionalX == provisionalX - mw / 2 /\
     x p == getMobileContainerPosition cd mw provisionalX + mw / 2).
Proof.
  intros (Hm0 & Hmt & Htc) [[Hx0 Hx1] [Hy0 Hy1]] provisionalX tabletLeft'.
  assert (Hw : 0 <= width cd) by lra.
  assert (Hh : 0 <= height cd) by lra.
  pose proof (provisional_clamp (width cd) (x fp) (x (delta e)) Hw) as Hprov.
  fold provisionalX in Hprov.
  eexists. split; [apply handleDragEnd_mounted |].
  cbv zeta; cbn [x y].
  split; [apply provisional_clamp, Hh |].
  subst tabletLeft'. rewrite <- Hprov.
  set (newX := provisional (width cd) (x fp) (x (delta e))).
  set (t := getTabletContainerPosition cd tw newX).
  destruct (negb (Qeq_bool t 0) && negb (Qeq_bool t (width cd - tw))) eqn:E.
  - apply tablet_interior_test in E. destruct E as [E0 E1]. split.
    + intros Hpin. exfalso. destruct Hpin; auto.
    + intros _. split; [| reflexivity].
      apply (mobile_unclamped_when_tablet_interior cd mw tw newX Hmt E0 E1).
  - apply tablet_pinned_test in E. split.
    + intros _. reflexivity.
    + intros [N0 N1]. exfalso. destruct E; auto.
Qed.

Lemma handleDragEnd_clamps_or_recentres_witness :
  exists p,
    handleDragEnd Index_containerDimensions 300 500 (Some ContainerDiv)
      {| x := 400; y := 200 |} {| delta := {| x := -75; y := 300 |} |}
    = Some p /\
    y p == 400 /\
    x p == getMobileContainerPosition Index_containerDimensions 300 325
           + 300 / 2.
Proof.
  destruct (handleDragEnd_clamps_or_recentres Index_containerDimensions
              300 500 ContainerDiv {| x := 400; y := 200 |}
              {| delta := {| x := -75; y := 300 |} |})
    as [p [Hp [Hy [_ Hre]]]].
  - vm_compute. repeat split; discriminate.
  - vm_compute. repeat split; discriminate.
  - exists p. split; [exact Hp |]. split.
    + rewrite Hy. vm_compute. reflexivity.
    + destruct Hre as [_ Hx].
      * vm_compute. split; discriminate.
      * rewrite Hx. vm_compute. reflexivity.
Defined.

(** The claim as first stated fails on doubles: a valid configuration, a
    focal point in the container and the zero delta, for which the X
    committed is not [clamp (x + delta.x) 0 containerWidth]; it is
    [(460.8 - 200.3/2) + 200.3/2 = 460.79999999999995], with the tablet
    window at neither boundary. *)
Lemma handleDragEnd_is_not_clampDrag_on_doubles :
  let cd := Binary64.mkDimensions 1024 768 in
  let mw := 200.3%float in
  let tw := 400.5%float in
  let fp := Binary64.mkPosition 460.8 100 in
  let e := Binary64.mkDragEndEvent (Binary64.mkPosition 0 0) in
  Binary64.validConfiguration cd mw tw = true /\
  Binary64.inBounds cd fp = true /\
  exists p,
    Binary64.handleDragEnd cd mw tw (Some ContainerDiv) fp e = Some p /\
    Binary64.clamp (Binary64.x fp + Binary64.x (Binary64.delta e)) 0
      (Binary64.width cd) = 460.8%float /\
    Binary64.x p = 460.79999999999995%float /\
    PrimFloat.eqb (Binary64.x p)
      (Binary64.clamp (Binary64.x fp + Binary64.x (Binary64.delta e)) 0
         (Binary64.width cd)) = false.
Proof.
  cbv zeta. split; [vm_compute; reflexivity |].
  split; [vm_compute; reflexivity |].
  eexists. split; [vm_compute; reflexivity |].
  repeat split; vm_compute; reflexivity.
Qed.

(** ** Sequences of drags *)

Lemma samePosition_trans (p q r : Position) :
  samePosition p q -> samePosition q r -> samePosition p r.
Proof.
  intros [Hx Hy] [Hx' Hy']. split.
  - rewrite Hx. exact Hx'.
  - rewrite Hy. exact Hy'.
Qed.

Lemma inBounds_samePosition (cd : Dimensions) (p q : Position) :
  samePosition p q -> inBounds cd q -> inBounds cd p.
Proof.
  intros [Hx Hy] [[Hx0 Hx1] [Hy0 Hy1]]. unfold inBounds. lra.
Qed.

(** C7. Drags do not commute: from the initial focal point of the [Index]
    page, a drag far to the right followed by a drag to the left ends
    elsewhere than the same two drags in the other order. *)
Theorem handleDragEnd_not_commutative :
  exists (fp : Position) (d1 d2 : DragEndEvent),
    inBounds Index_containerDimensions fp /\
    ~ samePosition
        (afterDrags Index_containerDimensions Index_mobileWidth
           Index_tabletWidth (Some ContainerDiv) fp [d1; d2])
        (afterDrags Index_containerDimensions Index_mobileWidth
           Index_tabletWidth (Some ContainerDiv) fp [d2; d1]).
Proof.
  exists {| x := 400; y := 200 |},
         {| delta := {| x := 1000; y := 0 |} |},
         {| delta := {| x := -500; y := 0 |} |}.
  split.
  - vm_compute. repeat split; discriminate.
  - vm_compute. intros [Hx _]. discriminate Hx.
Qed.

(** C8. The left-boundary scenario: container 800x400, mobile 200, tablet
    400, focal point (400,200), delta (-350,0).  The provisional X is 50,
    the tablet offset there is 0 (left boundary), the handler commits
    (50,200), and the mobile offset rendered from it is 0. *)
Theorem left_boundary_scenario :
  let fp := {| x := 400; y := 200 |} in
  let e := {| delta := {| x := -350; y := 0 |} |} in
  provisional (width Index_containerDimensions) (x fp) (x (delta e)) == 50 /\
  getTabletContainerPosition Index_containerDimensions Index_tabletWidth 50
    == 0 /\
  windowLeft_spec 50 400 800 == 0 /\
  handleDragEnd Index_containerDimensions Index_mobileWidth Index_tabletWidth
    (Some ContainerDiv) fp e = Some {| x := 50; y := 200 |} /\
  mobileLeft Index_containerDimensions Index_mobileWidth {| x := 50; y := 200 |}
    == 0 /\
  windowLeft_spec 50 200 800 == 0.
Proof.
  cbv zeta. repeat split; vm_compute; reflexivity.
Qed.

(** In exact arithmetic the right edge of the mobile window does not pass
    the right edge of the tablet window.  On doubles it can, by the
    rounding of the two offsets: [mobile_right_edge_passes_on_doubles]. *)
Lemma mobile_right_edge_inside_tablet (cd : Dimensions) (mw tw focalX : Q) :
  validConfiguration cd mw tw ->
  getMobileContainerPosition cd mw focalX + mw
    <= getTabletContainerPosition cd tw focalX + tw.
Proof.
  intros (Hm0 & Hmt & Htc).
  unfold getTabletContainerPosition, getMobileContainerPosition; cbv zeta.
  minmax_lra.
Qed.

(** C10, as amended.  With [0 < mobileWidth <= tabletWidth <=
    containerWidth], for every focal X the mobile window starts inside the
    tablet window and both start inside the container:
    [0 <= tabletLeft <= mobileLeft <= containerWidth - mobileWidth] and
    [tabletLeft <= containerWidth - tabletWidth].  Nothing is stated of the
    right edges [mobileLeft + mobileWidth] and [tabletLeft + tabletWidth]. *)
Theorem mobile_starts_inside_tablet (cd : Dimensions) (mw tw focalX : Q) :
  validConfiguration cd mw tw ->
  0 <= getTabletContainerPosition cd tw focalX /\
  getTabletContainerPosition cd tw focalX
    <= getMobileContainerPosition cd mw focalX /\
  getMobileContainerPosition cd mw focalX <= width cd - mw /\
  getTabletContainerPosition cd tw focalX <= width cd - tw.
Proof.
  intros (Hm0 & Hmt & Htc).
  unfold getTabletContainerPosition, getMobileContainerPosition; cbv zeta.
  repeat split; minmax_lra.
Qed.

Lemma mobile_starts_inside_tablet_witness :
  0 <= getTabletContainerPosition Index_containerDimensions 400 750 /\
  getTabletContainerPosition Index_containerDimensions 400 750
    <= getMobileContainerPosition Index_containerDimensions 200 750 /\
  getMobileContainerPosition Index_containerDimensions 200 750
    <= width Index_containerDimensions - 200 /\
  getTabletContainerPosition Index_containerDimensions 400 750
    <= width Index_containerDimensions - 400.
Proof.
  apply (mobile_starts_inside_tablet Index_containerDimensions 200 400 750).
  vm_compute. repeat split; discriminate.
Defined.

(** The claim as first stated fails on doubles: a valid configuration and a
    focal X for which the right edge of the mobile window is past the right
    edge of the tablet window, as the two sums are computed
    ([230.40000000000001] against [230.39999999999998]) and as the exact
    sums of the four doubles. *)
Lemma mobile_right_edge_passes_on_doubles :
  let cd := Binary64.mkDimensions 230.4 100 in
  let mw := 56.1%float in
  let tw := 76.7%float in
  let focalX := 202.4%float in
  let ml := Binary64.getMobileContainerPosition cd mw focalX in
  let tl := Binary64.getTabletContainerPosition cd tw focalX in
  Binary64.validConfiguration cd mw tw = true /\
  PrimFloat.leb tl ml = true /\
  PrimFloat.leb (ml + mw) (tl + tw) = false /\
  exists qml qmw qtl qtw : Q,
    Binary64.exactValue ml = Some qml /\
    Binary64.exactValue mw = Some qmw /\
    Binary64.exactValue tl = Some qtl /\
    Binary64.exactValue tw = Some qtw /\
    qtl + qtw < qml + qmw.
Proof.
  cbv zeta. split; [vm_compute; reflexivity |].
  split; [vm_compute; reflexivity |].
  split; [vm_compute; reflexivity |].
  do 4 eexists.
  split; [vm_compute; reflexivity |].
  split; [vm_compute; reflexivity |].
  split; [vm_compute; reflexivity |].
  split; [vm_compute; reflexivity |].
  vm_compute. reflexivity.
Qed.

(** ** Further properties of the crop windows *)

(** X1. A window never moves against the focal point: when the focal X grows,
    the offset of either window does not shrink.  No assumption on the
    widths. *)
Theorem window_offset_monotone (cd : Dimensions) (windowWidth : Q)
    (focalX focalX' : Q) :
  focalX <= focalX' ->
  getMobileContainerPosition cd windowWidth focalX
    <= getMobileContainerPosition cd windowWidth focalX' /\
  getTabletContainerPosition cd windowWidth focalX
    <= getTabletContainerPosition cd windowWidth focalX'.
Proof.
  intros Hle.
  unfold getMobileContainerPosition, getTabletContainerPosition; cbv zeta.
  split; minmax_lra.
Qed.

Lemma window_offset_monotone_witness :
  getMobileContainerPosition Index_containerDimensions 200 650
    <= getMobileContainerPosition Index_containerDimensions 200 750.
Proof.
  apply (window_offset_monotone Index_containerDimensions 200 650 750).
  vm_compute; discriminate.
Defined.

(** X2. A window never starts to the right of the focal point: for a window
    width and a focal X that are not negative, the offset of either window
    is at most the focal X. *)
Theorem window_starts_before_focal_point (cd : Dimensions)
    (windowWidth focalX : Q) :
  0 <= windowWidth ->
  0 <= focalX ->
  getMobileContainerPosition cd windowWidth focalX <= focalX /\
  getTabletContainerPosition cd windowWidth focalX <= focalX.
Proof.
  intros Hw Hx.
  unfold getMobileContainerPosition, getTabletContainerPosition; cbv zeta.
  split; minmax_lra.
Qed.

Lemma window_starts_before_focal_point_witness :
  getMobileContainerPosition Index_containerDimensions 200 790 <= 790 /\
  getTabletContainerPosition Index_containerDimensions 200 790 <= 790.
Proof.
  apply (window_starts_before_focal_point Index_containerDimensions 200 790).
  - vm_compute; discriminate.
  - vm_compute; discriminate.
Defined.

(** X3. The first render: the focal point starts in the container, and either
    window that fits in the container starts centred in it, with the same
    margin [(containerWidth - windowWidth) / 2] on both sides. *)
Theorem initial_windows_centred (cd : Dimensions) (mw tw : Q) :
  0 <= width cd -> 0 <= height cd ->
  inBounds cd (initialFocalPoint cd) /\
  (mw <= width cd ->
   mobileLeft cd mw (initialFocalPoint cd) == (width cd - mw) / 2) /\
  (tw <= width cd ->
   tabletLeft cd tw (initialFocalPoint cd) == (width cd - tw) / 2).
Proof.
  intros Hw Hh.
  unfold inBounds, mobileLeft, tabletLeft, getMobileContainerPosition,
    getTabletContainerPosition, initialFocalPoint; cbv zeta; cbn [x y].
  split; [| split; intros Hfit].
  - halves. lra.
  - minmax_lra.
  - minmax_lra.
Qed.

Lemma initial_windows_centred_witness :
  mobileLeft Index_containerDimensions 200
    (initialFocalPoint Index_containerDimensions) == (800 - 200) / 2 /\
  tabletLeft Index_containerDimensions 400
    (initialFocalPoint Index_containerDimensions) == (800 - 400) / 2.
Proof.
  destruct (initial_windows_centred Index_containerDimensions 200 400)
    as [_ [Hm Ht]].
  - vm_compute; discriminate.
  - vm_compute; discriminate.
  - split.
    + apply Hm. vm_compute; discriminate.
    + apply Ht. vm_compute; discriminate.
Defined.

(** ** Sessions *)

Lemma afterSession_inBounds (cd : Dimensions) (mw tw : Q) (fp : Position)
    (session : list (option HTMLDivElement * DragEndEvent)) :
  mw <= width cd ->
  inBounds cd fp ->
  inBounds cd (afterSession cd mw tw fp session).
Proof.
  intros Hm. revert fp.
  induction session as [| [ref e] rest IH]; intros fp Hfp.
  - exact Hfp.
  - cbn [afterSession]. apply IH, afterDragEnd_inBounds; assumption.
Qed.

(** X4. Every state of a session is sound.  Start from the initial focal point
    and run any sequence of drags, the container mounted at some and not at
    others.  If both windows fit in the container, the focal point is in
    the container, the offset rendered for either window is between [0] and
    the container's width less the window's width, and neither window
    starts to the right of the focal X. *)
Theorem session_invariant (cd : Dimensions) (mw tw : Q)
    (session : list (option HTMLDivElement * DragEndEvent)) :
  0 <= height cd ->
  0 <= mw <= width cd ->
  0 <= tw <= width cd ->
  let p := afterSession cd mw tw (initialFocalPoint cd) session in
  inBounds cd p /\
  0 <= mobileLeft cd mw p <= width cd - mw /\
  0 <= tabletLeft cd tw p <= width cd - tw /\
  mobileLeft cd mw p <= x p /\
  tabletLeft cd tw p <= x p.
Proof.
  intros Hh [Hm0 Hm1] [Ht0 Ht1] p.
  assert (Hinit : inBounds cd (initialFocalPoint cd)).
  { unfold inBounds, initialFocalPoint; cbn [x y]. halves. lra. }
  pose proof (afterSession_inBounds cd mw tw _ session Hm1 Hinit) as Hp.
  fold p in Hp. split; [exact Hp |].
  destruct Hp as [[Hx0 Hx1] _].
  unfold mobileLeft, tabletLeft, getMobileContainerPosition,
    getTabletContainerPosition; cbv zeta.
  generalize dependent (x p). intros X HX0 HX1.
  repeat split; minmax_lra.
Qed.

Lemma session_invariant_witness :
  inBounds Index_containerDimensions
    (afterSession Index_containerDimensions 200 400
       (initialFocalPoint Index_containerDimensions)
       [(Some ContainerDiv, {| delta := {| x := 1000; y := -50 |} |});
        (None, {| delta := {| x := -30; y := 7 |} |});
        (Some ContainerDiv, {| delta := {| x := -333; y := 1000 |} |})]).
Proof.
  assert (Hh : 0 <= height Index_containerDimensions)
    by (vm_compute; discriminate).
  assert (Hm : 0 <= 200 <= width Index_containerDimensions)
    by (vm_compute; split; discriminate).
  assert (Ht : 0 <= 400 <= width Index_containerDimensions)
    by (vm_compute; split; discriminate).
  exact (proj1 (session_invariant Index_containerDimensions 200 400
                  [(Some ContainerDiv, {| delta := {| x := 1000; y := -50 |} |});
                   (None, {| delta := {| x := -30; y := 7 |} |});
                   (Some ContainerDiv,
                    {| delta := {| x := -333; y := 1000 |} |})]
                  Hh Hm Ht)).
Defined.

(** ** Drags at the boundaries *)

(** When the tablet window at [X] is at a boundary the handler commits [X]. *)
Lemma committed_x_when_pinned (cd : Dimensions) (mw tw X : Q) :
  getTabletContainerPosition cd tw X == 0 \/
  getTabletContainerPosition cd tw X == width cd - tw ->
  (if negb (Qeq_bool (getTabletContainerPosition cd tw X) 0)
      && negb (Qeq_bool (getTabletContainerPosition cd tw X) (width cd - tw))
   then getMobileContainerPosition cd mw X + mw / 2
   else X) = X.
Proof.
  intros Hpin. apply tablet_pinned_test in Hpin. rewrite Hpin. reflexivity.
Qed.

Lemma tablet_pinned_left_below (cd : Dimensions) (tw X X' : Q) :
  X' <= X ->
  getTabletContainerPosition cd tw X == 0 ->
  getTabletContainerPosition cd tw X' == 0.
Proof.
  unfold getTabletContainerPosition; cbv zeta. intros Hle Hpin. minmax_lra.
Qed.

Lemma tablet_pinned_right_above (cd : Dimensions) (tw X X' : Q) :
  X <= X' ->
  getTabletContainerPosition cd tw X == width cd - tw ->
  getTabletContainerPosition cd tw X' == width cd - tw.
Proof.
  unfold getTabletContainerPosition; cbv zeta. intros Hle Hpin. minmax_lra.
Qed.

(** X5. A pinned tablet window stays pinned while the focal point goes on.  From
    a focal point in the container whose tablet window is at the left
    boundary, a drag to the left commits the clamped X as it is (no
    re-centring on the mobile window), not to the right of the old one, and
    the tablet window is still at the left boundary; the same on the right.
    No assumption on the widths. *)
Theorem pinned_tablet_stays_pinned (cd : Dimensions) (mw tw : Q)
    (el : HTMLDivElement) (fp : Position) (e : DragEndEvent) :
  inBounds cd fp ->
  exists p,
    handleDragEnd cd mw tw (Some el) fp e = Some p /\
    (tabletLeft cd tw fp == 0 -> x (delta e) <= 0 ->
     x p == clamp (x fp + x (delta e)) 0 (width cd) /\
     x p <= x fp /\
     tabletLeft cd tw p == 0) /\
    (tabletLeft cd tw fp == width cd - tw -> 0 <= x (delta e) ->
     x p == clamp (x fp + x (delta e)) 0 (width cd) /\
     x fp <= x p /\
     tabletLeft cd tw p == width cd - tw).
Proof.
  intros [[Hx0 Hx1] _].
  assert (Hcw : 0 <= width cd) by lra.
  pose proof (provisional_clamp (width cd) (x fp) (x (delta e)) Hcw) as Hc.
  eexists. split; [apply handleDragEnd_mounted |].
  unfold tabletLeft; cbv zeta; cbn [x].
  set (newX := provisional (width cd) (x fp) (x (delta e))) in *.
  split; intros Hpin Hdir.
  - assert (Hle : newX <= x fp) by (subst newX; unfold provisional; minmax_lra).
    pose proof (tablet_pinned_left_below cd tw _ _ Hle Hpin) as Hpin'.
    rewrite (committed_x_when_pinned cd mw tw newX (or_introl Hpin')).
    repeat split; assumption.
  - assert (Hle : x fp <= newX) by (subst newX; unfold provisional; minmax_lra).
    pose proof (tablet_pinned_right_above cd tw _ _ Hle Hpin) as Hpin'.
    rewrite (committed_x_when_pinned cd mw tw newX (or_intror Hpin')).
    repeat split; assumption.
Qed.

Lemma pinned_tablet_stays_pinned_witness :
  exists p,
    handleDragEnd Index_containerDimensions 200 400 (Some ContainerDiv)
      {| x := 150; y := 200 |} {| delta := {| x := -100; y := 0 |} |}
    = Some p /\
    x p == 50 /\ tabletLeft Index_containerDimensions 400 p == 0.
Proof.
  destruct (pinned_tablet_stays_pinned Index_containerDimensions 200 400
              ContainerDiv {| x := 150; y := 200 |}
              {| delta := {| x := -100; y := 0 |} |})
    as [p [Hp [Hleft _]]].
  - vm_compute. repeat split; discriminate.
  - exists p. split; [exact Hp |].
    destruct Hleft as [Hx [_ Ht]].
    + vm_compute; reflexivity.
    + vm_compute; discriminate.
    + split; [| exact Ht]. rewrite Hx. vm_compute; reflexivity.
Defined.

(** X6. The edges of the container can be reached whatever the mobile width: if
    the tablet window fits in the container, a drag that takes the focal X
    to the right edge or past it commits the right edge itself, and one
    that takes it to the left edge or past it commits [0]; likewise for Y
    with the bottom and the top edge. *)
Theorem focal_point_reaches_edges (cd : Dimensions) (mw tw : Q)
    (el : HTMLDivElement) (fp : Position) (e : DragEndEvent) :
  0 <= tw <= width cd ->
  inBounds cd fp ->
  exists p,
    handleDragEnd cd mw tw (Some el) fp e = Some p /\
    (width cd <= x fp + x (delta e) -> x p == width cd) /\
    (x fp + x (delta e) <= 0 -> x p == 0) /\
    (height cd <= y fp + y (delta e) -> y p == height cd) /\
    (y fp + y (delta e) <= 0 -> y p == 0).
Proof.
  intros [Ht0 Ht1] [[Hx0 Hx1] [Hy0 Hy1]].
  eexists. split; [apply handleDragEnd_mounted |].
  cbv zeta; cbn [x y].
  set (newX := provisional (width cd) (x fp) (x (delta e))).
  repeat split; intros Hpast.
  - assert (HX : newX == width cd)
      by (subst newX; unfold provisional; minmax_lra).
    rewrite committed_x_when_pinned; [exact HX |].
    right. revert HX. generalize newX. intros X HX.
    unfold getTabletContainerPosition; cbv zeta. minmax_lra.
  - assert (HX : newX == 0)
      by (subst newX; unfold provisional; minmax_lra).
    rewrite committed_x_when_pinned; [exact HX |].
    left. revert HX. generalize newX. intros X HX.
    unfold getTabletContainerPosition; cbv zeta. minmax_lra.
  - unfold provisional. minmax_lra.
  - unfold provisional. minmax_lra.
Qed.

Lemma focal_point_reaches_edges_witness :
  exists p,
    handleDragEnd Index_containerDimensions 700 400 (Some ContainerDiv)
      {| x := 400; y := 200 |} {| delta := {| x := 1000; y := -1000 |} |}
    = Some p /\
    x p == width Index_containerDimensions /\ y p == 0.
Proof.
  destruct (focal_point_reaches_edges Index_containerDimensions 700 400
              ContainerDiv {| x := 400; y := 200 |}
              {| delta := {| x := 1000; y := -1000 |} |})
    as [p [Hp [Hright [_ [_ Htop]]]]].
  - vm_compute. split; discriminate.
  - vm_compute. repeat split; discriminate.
  - exists p. split; [exact Hp |]. split.
    + apply Hright. vm_compute; discriminate.
    + apply Htop. vm_compute; discriminate.
Defined.

(** ** The zero drag without nested windows *)

Lemma afterDragEnd_mounted_finalX (cd : Dimensions) (mw tw : Q)
    (el : HTMLDivElement) (fp : Position) (e : DragEndEvent) :
  afterDragEnd cd mw tw (Some el) fp e =
  {| x := finalX_of cd mw tw (provisional (width cd) (x fp) (x (delta e)));
     y := provisional (height cd) (y fp) (y (delta e)) |}.
Proof. reflexivity. Qed.

Lemma finalX_of_compat (cd : Dimensions) (mw tw X X' : Q) :
  X == X' -> finalX_of cd mw tw X == finalX_of cd mw tw X'.
Proof.
  intros HX. unfold finalX_of; cbv zeta.
  assert (Ht : getTabletContainerPosition cd tw X
               == getTabletContainerPosition cd tw X')
    by (rewrite HX; reflexivity).
  rewrite (Qeqb_comp _ _ Ht 0 0 (Qeq_refl 0)).
  rewrite (Qeqb_comp _ _ Ht (width cd - tw) (width cd - tw) (Qeq_refl _)).
  destruct (negb (Qeq_bool (getTabletContainerPosition cd tw X') 0)
            && negb (Qeq_bool (getTabletContainerPosition cd tw X')
                       (width cd - tw))).
  - rewrite HX. reflexivity.
  - exact HX.
Qed.

Lemma finalX_of_cases (cd : Dimensions) (mw tw X : Q) :
  finalX_of cd mw tw X = X \/
  finalX_of cd mw tw X = getMobileContainerPosition cd mw X + mw / 2.
Proof.
  unfold finalX_of; cbv zeta.
  destruct (negb (Qeq_bool (getTabletContainerPosition cd tw X) 0)
            && negb (Qeq_bool (getTabletContainerPosition cd tw X)
                       (width cd - tw))); [right | left]; reflexivity.
Qed.

(** What the handler commits is a fixed point of its own re-centring. *)
Lemma finalX_of_idempotent (cd : Dimensions) (mw tw X : Q) :
  mw <= width cd ->
  finalX_of cd mw tw (finalX_of cd mw tw X) == finalX_of cd mw tw X.
Proof.
  intros Hm.
  destruct (finalX_of_cases cd mw tw X) as [HX | HX].
  - rewrite HX, HX. reflexivity.
  - rewrite HX.
    destruct (finalX_of_cases cd mw tw
                (getMobileContainerPosition cd mw X + mw / 2)) as [Hc | Hc];
      rewrite Hc; [reflexivity |].
    unfold getMobileContainerPosition; cbv zeta. minmax_lra.
Qed.

(** X9. The zero drag settles at once, nested windows or not: if the mobile
    window fits in the container, a second zero drag leaves the focal point
    where the first one put it. *)
Theorem zero_drag_settles (cd : Dimensions) (mw tw : Q)
    (el : HTMLDivElement) (fp : Position) :
  mw <= width cd ->
  inBounds cd fp ->
  samePosition
    (afterDrags cd mw tw (Some el) fp [zeroDrag; zeroDrag])
    (afterDragEnd cd mw tw (Some el) fp zeroDrag).
Proof.
  intros Hm Hfp. cbn [afterDrags].
  pose proof (afterDragEnd_inBounds cd mw tw (Some el) fp zeroDrag Hm Hfp)
    as [[Hx0 Hx1] [Hy0 Hy1]].
  rewrite (afterDragEnd_mounted_finalX cd mw tw el
             (afterDragEnd cd mw tw (Some el) fp zeroDrag)).
  rewrite (afterDragEnd_mounted_finalX cd mw tw el fp) in *.
  cbn [x y zeroDrag delta] in *.
  set (c := finalX_of cd mw tw (provisional (width cd) (x fp) 0)) in *.
  split; cbn [x y].
  - assert (Hc : provisional (width cd) c 0 == c)
      by (unfold provisional; minmax_lra).
    rewrite (finalX_of_compat cd mw tw _ _ Hc).
    apply finalX_of_idempotent, Hm.
  - unfold provisional in *. minmax_lra.
Qed.

Lemma zero_drag_settles_witness :
  samePosition
    (afterDrags Index_containerDimensions 400 100 (Some ContainerDiv)
       {| x := 100; y := 200 |} [zeroDrag; zeroDrag])
    (afterDragEnd Index_containerDimensions 400 100 (Some ContainerDiv)
       {| x := 100; y := 200 |} zeroDrag).
Proof.
  apply (zero_drag_settles Index_containerDimensions 400 100 ContainerDiv
           {| x := 100; y := 200 |}).
  - vm_compute; discriminate.
  - vm_compute. repeat split; discriminate.
Defined.

(** With a mobile window wider than the tablet window the first zero drag
    does move the focal point, to the centre of the mobile window. *)
Example zero_drag_moves_when_mobile_wider :
  inBounds Index_containerDimensions {| x := 100; y := 200 |} /\
  x (afterDragEnd Index_containerDimensions 400 100 (Some ContainerDiv)
       {| x := 100; y := 200 |} zeroDrag) == 200.
Proof.
  split.
  - vm_compute. repeat split; discriminate.
  - vm_compute. reflexivity.
Qed.

(** ** The zero drag with nested windows *)

(** In exact arithmetic one zero drag, with the container mounted or not,
    changes nothing when the windows are nested.  On doubles it can move
    the focal X: [zero_drag_moves_focal_point_on_doubles]. *)
Lemma afterDragEnd_zeroDrag (cd : Dimensions) (mw tw : Q)
    (ref : option HTMLDivElement) (fp : Position) :
  mw <= tw ->
  inBounds cd fp ->
  samePosition (afterDragEnd cd mw tw ref fp zeroDrag) fp.
Proof.
  intros Hmt [[Hx0 Hx1] [Hy0 Hy1]].
  destruct ref as [el |].
  - apply (samePosition_trans _ (clampDrag cd fp (delta zeroDrag))).
    + apply afterDragEnd_mounted_clampDrag; [exact Hmt | lra | lra].
    + split; cbn [x y clampDrag zeroDrag delta]; name_clamp; lra.
  - split; reflexivity.
Qed.

Lemma tabletPinned_samePosition (cd : Dimensions) (tw : Q) (p q : Position) :
  samePosition p q -> tabletPinned cd tw q -> tabletPinned cd tw p.
Proof.
  intros [Hx _]. unfold tabletPinned, tabletLeft. rewrite Hx. tauto.
Qed.

(** The zero drag never changes Y. *)
Lemma afterDragEnd_zeroDrag_y (cd : Dimensions) (mw tw : Q)
    (ref : option HTMLDivElement) (fp : Position) :
  0 <= y fp <= height cd ->
  y (afterDragEnd cd mw tw ref fp zeroDrag) == y fp.
Proof.
  intros [Hy0 Hy1]. destruct ref as [el |]; [| reflexivity].
  unfold afterDragEnd. rewrite handleDragEnd_mounted.
  cbn [x y zeroDrag delta]. unfold provisional. minmax_lra.
Qed.

(** The zero drag changes nothing where the tablet window is at a boundary,
    whatever the widths. *)
Lemma afterDragEnd_zeroDrag_pinned (cd : Dimensions) (mw tw : Q)
    (ref : option HTMLDivElement) (fp : Position) :
  inBounds cd fp ->
  tabletPinned cd tw fp ->
  samePosition (afterDragEnd cd mw tw ref fp zeroDrag) fp.
Proof.
  intros [[Hx0 Hx1] Hy] Hpin.
  split; [| apply afterDragEnd_zeroDrag_y, Hy].
  destruct ref as [el |]; [| reflexivity].
  unfold afterDragEnd. rewrite handleDragEnd_mounted.
  cbv zeta; cbn [x y zeroDrag delta].
  assert (HX : provisional (width cd) (x fp) 0 == x fp)
    by (unfold provisional; minmax_lra).
  rewrite committed_x_when_pinned; [exact HX |].
  unfold tabletPinned, tabletLeft in Hpin. rewrite HX. exact Hpin.
Qed.

(** C6, as amended.  With [0 < mobileWidth <= tabletWidth <=
    containerWidth] and a focal point in the container: any number of zero
    drags leaves Y as it was; it leaves the whole focal point as it was
    when the tablet window of the focal point is at a boundary; and when it
    is at neither boundary one zero drag commits, for X, the mobile offset
    [x - mobileWidth/2] plus [mobileWidth/2], the result of the subtraction
    and the addition and not [x] taken as it is. *)
Theorem zero_delta_unchanged_when_pinned (cd : Dimensions) (mw tw : Q)
    (ref : option HTMLDivElement) (el : HTMLDivElement) (fp : Position)
    (n : nat) :
  validConfiguration cd mw tw ->
  inBounds cd fp ->
  y (afterDrags cd mw tw ref fp (repeat zeroDrag n)) == y fp /\
  (tabletPinned cd tw fp ->
   samePosition (afterDrags cd mw tw ref fp (repeat zeroDrag n)) fp) /\
  exists p,
    handleDragEnd cd mw tw (Some el) fp zeroDrag = Some p /\
    y p == y fp /\
    (tabletPinned cd tw fp -> x p == x fp) /\
    (~ tabletPinned cd tw fp ->
     mobileLeft cd mw fp == x fp - mw / 2 /\
     x p == mobileLeft cd mw fp + mw / 2).
Proof.
  intros (Hm0 & Hmt & Htc) Hfp. split; [| split].
  - destruct Hfp as [_ Hy]. revert fp Hy.
    induction n as [| n IH]; intros fp Hy.
    + reflexivity.
    + cbn [repeat afterDrags].
      pose proof (afterDragEnd_zeroDrag_y cd mw tw ref fp Hy) as Hone.
      rewrite IH; [exact Hone | rewrite Hone; exact Hy].
  - revert fp Hfp. induction n as [| n IH]; intros fp Hfp Hpin.
    + split; reflexivity.
    + cbn [repeat afterDrags].
      pose proof (afterDragEnd_zeroDrag_pinned cd mw tw ref fp Hfp Hpin)
        as Hone.
      apply (samePosition_trans _ (afterDragEnd cd mw tw ref fp zeroDrag)).
      * apply IH.
        -- apply (inBounds_samePosition cd _ fp Hone Hfp).
        -- apply (tabletPinned_samePosition cd tw _ fp Hone Hpin).
      * exact Hone.
  - exists (afterDragEnd cd mw tw (Some el) fp zeroDrag).
    split; [reflexivity |].
    split; [apply afterDragEnd_zeroDrag_y, Hfp |].
    split.
    + intros Hpin.
      apply (afterDragEnd_zeroDrag_pinned cd mw tw (Some el) fp Hfp Hpin).
    + intros Hfree. unfold tabletPinned, tabletLeft in Hfree.
      destruct Hfp as [[Hx0 Hx1] _].
      assert (HX : provisional (width cd) (x fp) 0 == x fp)
        by (unfold provisional; minmax_lra).
      assert (N0 : ~ getTabletContainerPosition cd tw (x fp) == 0) by tauto.
      assert (N1 : ~ getTabletContainerPosition cd tw (x fp) == width cd - tw)
        by tauto.
      split.
      * apply (mobile_unclamped_when_tablet_interior cd mw tw _ Hmt N0 N1).
      * rewrite afterDragEnd_mounted_finalX. cbn [x zeroDrag delta].
        rewrite (finalX_of_compat cd mw tw _ _ HX).
        destruct (finalX_of_cases cd mw tw (x fp)) as [Hc | Hc];
          rewrite Hc; [| reflexivity].
        unfold mobileLeft.
        rewrite (mobile_unclamped_when_tablet_interior cd mw tw _ Hmt N0 N1).
        halves. lra.
Qed.

Lemma zero_delta_unchanged_when_pinned_witness :
  samePosition
    (afterDrags Index_containerDimensions 200 400 (Some ContainerDiv)
       {| x := 50; y := 200 |} (repeat zeroDrag 3))
    {| x := 50; y := 200 |} /\
  exists p,
    handleDragEnd Index_containerDimensions 200 400 (Some ContainerDiv)
      {| x := 450; y := 200 |} zeroDrag = Some p /\
    x p == mobileLeft Index_containerDimensions 200 {| x := 450; y := 200 |}
           + 200 / 2.
Proof.
  assert (Hv : validConfiguration Index_containerDimensions 200 400)
    by (vm_compute; repeat split; discriminate).
  split.
  - apply (zero_delta_unchanged_when_pinned Index_containerDimensions 200 400
             (Some ContainerDiv) ContainerDiv {| x := 50; y := 200 |} 3 Hv).
    + vm_compute. repeat split; discriminate.
    + left. vm_compute. reflexivity.
  - destruct (zero_delta_unchanged_when_pinned Index_containerDimensions
                200 400 None ContainerDiv {| x := 450; y := 200 |} 0 Hv)
      as [_ [_ [p [Hp [_ [_ Hfree]]]]]].
    + vm_compute. repeat split; discriminate.
    + exists p. split; [exact Hp |].
      apply Hfree. vm_compute. intros [H | H]; discriminate H.
Defined.

(** The claim as first stated fails on doubles: a valid configuration whose
    initial focal point, in the container, is moved by one zero drag, from
    [234.65] to [(234.65 - 176.1/2) + 176.1/2 = 234.65000000000003]. *)
Lemma zero_drag_moves_focal_point_on_doubles :
  let cd := Binary64.mkDimensions 469.3 300 in
  let mw := 176.1%float in
  let tw := 272.5%float in
  let fp := Binary64.initialFocalPoint cd in
  Binary64.validConfiguration cd mw tw = true /\
  Binary64.inBounds cd fp = true /\
  Binary64.x fp = 234.65%float /\
  exists p,
    Binary64.handleDragEnd cd mw tw (Some ContainerDiv) fp Binary64.zeroDrag
    = Some p /\
    Binary64.x p = 234.65000000000003%float /\
    PrimFloat.eqb (Binary64.x p) (Binary64.x fp) = false.
Proof.
  cbv zeta. split; [vm_compute; reflexivity |].
  split; [vm_compute; reflexivity |].
  split; [vm_compute; reflexivity |].
  eexists. split; [vm_compute; reflexivity |].
  split; vm_compute; reflexivity.
Qed.

(** ** The info panel *)

(** The integer [z] with [z <= v < z + 1] is the floor of [v]. *)
Lemma Qfloor_unique (v : Q) (z : Z) :
  inject_Z z <= v -> v < inject_Z (z + 1) -> Qfloor v = z.
Proof.
  intros Hlo Hhi.
  pose proof (Qfloor_le v) as Hf.
  pose proof (Qlt_floor v) as Hc.
  assert (H1 : (Qfloor v < z + 1)%Z).
  { rewrite Zlt_Qlt. apply (Qle_lt_trans _ v); assumption. }
  assert (H2 : (z < Qfloor v + 1)%Z).
  { rewrite Zlt_Qlt. apply (Qle_lt_trans _ v); assumption. }
  lia.
Qed.

Lemma Math_round_near (v : Q) :
  v - (1 # 2) < inject_Z (Math_round v) <= v + (1 # 2).
Proof.
  unfold Math_round.
  pose proof (Qfloor_le (v + (1 # 2))) as Hf.
  pose proof (Qlt_floor (v + (1 # 2))) as Hc.
  rewrite inject_Z_plus in Hc. change (inject_Z 1) with 1 in Hc.
  lra.
Qed.

Lemma Math_round_le (v w : Q) :
  v <= w -> (Math_round v <= Math_round w)%Z.
Proof.
  intros Hle. apply Qfloor_resp_le. lra.
Qed.

Lemma Math_round_integer (z : Z) : Math_round (inject_Z z) = z.
Proof.
  apply Qfloor_unique.
  - lra.
  - rewrite inject_Z_plus. change (inject_Z 1) with 1. lra.
Qed.

Lemma Math_round_shift (v : Q) (n : Z) :
  Math_round (v + inject_Z n) = (Math_round v + n)%Z.
Proof.
  pose proof (Math_round_near v) as [Hlo Hhi].
  apply Qfloor_unique.
  - rewrite inject_Z_plus. lra.
  - rewrite !inject_Z_plus. change (inject_Z 1) with 1. lra.
Qed.

Lemma Math_round_between (v : Q) (lo hi : Z) :
  inject_Z lo <= v <= inject_Z hi -> (lo <= Math_round v <= hi)%Z.
Proof.
  intros [Hlo Hhi]. split.
  - rewrite <- (Math_round_integer lo). apply Math_round_le, Hlo.
  - rewrite <- (Math_round_integer hi). apply Math_round_le, Hhi.
Qed.

(** X12. The info panel shows no number out of range.  When the dimensions of
    the container and the widths of the windows are integers, with windows
    that fit in the container, and the focal point is in the container: the
    rounded focal point shown is between [0] and the container's width and
    height, and the rounded offset shown for a window is between [0] and
    the container's width less the window's width. *)
Theorem infoPanel_in_range (cd : Dimensions) (mw tw : Q) (fp : Position)
    (W H M T : Z) :
  width cd == inject_Z W -> height cd == inject_Z H ->
  mw == inject_Z M -> tw == inject_Z T ->
  (M <= W)%Z -> (T <= W)%Z ->
  inBounds cd fp ->
  let panel := infoPanel cd mw tw fp in
  (0 <= shownFocalX panel <= W)%Z /\
  (0 <= shownFocalY panel <= H)%Z /\
  (0 <= shownMobileLeft panel <= W - M)%Z /\
  (0 <= shownTabletLeft panel <= W - T)%Z.
Proof.
  intros HW HH HM HT HMW HTW [[Hx0 Hx1] [Hy0 Hy1]] panel.
  subst panel. cbn [infoPanel shownFocalX shownFocalY shownMobileLeft
                    shownTabletLeft].
  rewrite Zle_Qle in HMW, HTW.
  split; [| split; [| split]]; apply Math_round_between;
    unfold Z.sub; rewrite ?inject_Z_plus, ?inject_Z_opp;
    change (inject_Z 0) with 0;
    unfold mobileLeft, tabletLeft, getMobileContainerPosition,
      getTabletContainerPosition; cbv zeta; minmax_lra.
Qed.

Lemma infoPanel_in_range_witness :
  (0 <= shownMobileLeft
          (infoPanel Index_containerDimensions 200 400
             {| x := 7 # 2; y := 200 |}) <= 800 - 200)%Z.
Proof.
  assert (Hin : inBounds Index_containerDimensions {| x := 7 # 2; y := 200 |})
    by (vm_compute; repeat split; discriminate).
  exact (proj1 (proj2 (proj2
    (infoPanel_in_range Index_containerDimensions 200 400
       {| x := 7 # 2; y := 200 |} 800 400 200 400
       (Qeq_refl _) (Qeq_refl _) (Qeq_refl _) (Qeq_refl _)
       ltac:(lia) ltac:(lia) Hin)))).
Defined.

(** X13. The numbers shown keep the nesting of the windows.  With integer widths
    [0 < mobileWidth <= tabletWidth <= containerWidth], whatever the focal
    point, the mobile window as shown (rounded offset, width) lies inside
    the tablet window as shown. *)
Theorem infoPanel_keeps_nesting (cd : Dimensions) (mw tw : Q) (fp : Position)
    (M T : Z) :
  mw == inject_Z M -> tw == inject_Z T ->
  validConfiguration cd mw tw ->
  let panel := infoPanel cd mw tw fp in
  (shownTabletLeft panel <= shownMobileLeft panel)%Z /\
  (shownMobileLeft panel + M <= shownTabletLeft panel + T)%Z.
Proof.
  intros HM HT (Hm0 & Hmt & Htc) panel.
  subst panel. cbn [infoPanel shownMobileLeft shownTabletLeft].
  assert (Hnest : tabletLeft cd tw fp <= mobileLeft cd mw fp /\
                  mobileLeft cd mw fp + inject_Z M
                    <= tabletLeft cd tw fp + inject_Z T).
  { rewrite <- HM, <- HT.
    unfold mobileLeft, tabletLeft, getMobileContainerPosition,
      getTabletContainerPosition; cbv zeta.
    split; minmax_lra. }
  destruct Hnest as [Hl Hr]. split.
  - apply Math_round_le, Hl.
  - rewrite <- !Math_round_shift. apply Math_round_le, Hr.
Qed.

Lemma infoPanel_keeps_nesting_witness :
  (shownMobileLeft
     (infoPanel Index_containerDimensions 200 400 {| x := 1301 # 2; y := 0 |})
   + 200
   <= shownTabletLeft
        (infoPanel Index_containerDimensions 200 400
           {| x := 1301 # 2; y := 0 |})
      + 400)%Z.
Proof.
  assert (Hv : validConfiguration Index_containerDimensions 200 400)
    by (vm_compute; repeat split; discriminate).
  exact (proj2
    (infoPanel_keeps_nesting Index_containerDimensions 200 400
       {| x := 1301 # 2; y := 0 |} 200 400
       (Qeq_refl _) (Qeq_refl _) Hv)).
Defined.

(** ** The code on doubles at the props of [Index]

    At whole numbers of pixels no operation of the code rounds, and the two
    readings of the code give the same numbers. *)

(** The left-boundary scenario on doubles: the handler commits (50,200) and
    both offsets rendered from it are 0. *)
Example left_boundary_scenario_on_doubles :
  let cd := Binary64.mkDimensions 800 400 in
  Binary64.handleDragEnd cd 200 400 (Some ContainerDiv)
    (Binary64.mkPosition 400 200)
    (Binary64.mkDragEndEvent (Binary64.mkPosition (-350) 0))
  = Some (Binary64.mkPosition 50 200) /\
  Binary64.mobileLeft cd 200 (Binary64.mkPosition 50 200) = 0%float /\
  Binary64.tabletLeft cd 400 (Binary64.mkPosition 50 200) = 0%float.
Proof.
  cbv zeta. repeat split; vm_compute; reflexivity.
Qed.

(** The zero drag at the initial focal point of [Index], where the tablet
    window is at neither boundary, commits the same point on doubles. *)
Example zero_drag_at_Index_on_doubles :
  let cd := Binary64.mkDimensions 800 400 in
  Binary64.initialFocalPoint cd = Binary64.mkPosition 400 200 /\
  Binary64.tabletLeft cd 400 (Binary64.initialFocalPoint cd) = 200%float /\
  Binary64.handleDragEnd cd 200 400 (Some ContainerDiv)
    (Binary64.initialFocalPoint cd) Binary64.zeroDrag
  = Some (Binary64.mkPosition 400 200).
Proof.
  cbv zeta. repeat split; vm_compute; reflexivity.
Qed.
